(** * Mixed unitary error channel of the Aer noise model

    Shallow embedding of [src/noise/unitary_error.hpp] (class
    [AER::Noise::UnitaryError]) and the properties of its configuration
    setters and of [sample_noise].

    - [double] is IEEE 754 binary64, embedded as Rocq's primitive [float];
      [a > b] is written [b <? a];
    - [uint_t] is an unsigned 64-bit integer, embedded as [N] with the
      wrap-around of its subtraction written out;
    - a member function is a computation in a state-and-exception monad
      over the object it is called on; [throw] leaves the state as it is at
      the point of the throw. *)

From Stdlib Require Import List String NArith ZArith QArith Bool Lia Floats.
Import ListNotations.

(* Decimal literals stand for the nearest double, as in C++. *)
#[local] Set Warnings "-inexact-float".

Local Open Scope N_scope.

(** ** Machine integers *)

Module Uint64.

Definition modulus : N := 2 ^ 64.

(** The values a [uint_t] can hold. *)
Definition wf (x : N) : Prop := x < modulus.

(** Unsigned subtraction, modulo [2^64]. *)
Definition sub (x y : N) : N := (x + (modulus - y mod modulus)) mod modulus.

End Uint64.

Definition uint_t : Type := N.

(** [reg_t] is [std::vector<uint_t>], [rvector_t] is [std::vector<double>]. *)
Definition reg_t : Type := list uint_t.
Definition rvector_t : Type := list float.

(** ** Control: state, exceptions, undefined behaviour *)

Module Control.

(** The only exception class the file throws. *)
Inductive exception : Type :=
| invalid_argument (what_arg : string).

(** How a call ends: it returns, it throws, or it leaves defined
    behaviour (an index outside a vector). *)
Inductive outcome (A : Type) : Type :=
| Return (a : A)
| Throw (e : exception)
| Undefined.

Arguments Return {A} a.
Arguments Throw {A} e.
Arguments Undefined {A}.

Definition M (S A : Type) : Type := S -> outcome A * S.

Definition ret {S A} (a : A) : M S A := fun s => (Return a, s).

Definition bind {S A B} (c : M S A) (k : A -> M S B) : M S B :=
  fun s =>
    match c s with
    | (Return a, s') => k a s'
    | (Throw e, s') => (Throw e, s')
    | (Undefined, s') => (Undefined, s')
    end.

Definition throw {S A} (e : exception) : M S A := fun s => (Throw e, s).

Definition undefined {S A} : M S A := fun s => (Undefined, s).

Definition gets {S A} (f : S -> A) : M S A := fun s => (Return (f s), s).

Definition modify {S} (f : S -> S) : M S unit := fun s => (Return tt, f s).

(** [vec[i]] of a [std::vector]: undefined outside the vector. *)
Definition subscript {S A} (v : list A) (i : N) : M S A :=
  match nth_error v (N.to_nat i) with
  | Some a => ret a
  | None => undefined
  end.

End Control.

Import Control.

Declare Scope cpp_scope.
Delimit Scope cpp_scope with cpp.

Notation "x <- c1 ;; c2" := (bind c1 (fun x => c2))
  (at level 61, c1 at next level, right associativity) : cpp_scope.
Notation "c1 ;; c2" := (bind c1 (fun _ => c2))
  (at level 61, right associativity) : cpp_scope.

(** ** [std::discrete_distribution<uint_t>] *)

Module DiscreteDistribution.

(** The weighted distribution of the C++ standard library.  The embedding
    keeps the weights the object was constructed from, in their order
    (outcome [i] has weight [weights[i]]; the library normalises them by
    their sum when it draws); drawing is the random engine's business. *)
Record t : Type := Build { weights : list float }.

(** The default constructor: one outcome, of weight one. *)
Definition default : t := Build [1%float].

(** The constructor from an iterator range; an empty range gives the
    default distribution. *)
Definition of_range (ws : list float) : t :=
  match ws with
  | [] => default
  | _ :: _ => Build ws
  end.

(** The number of outcomes. *)
Definition size (d : t) : nat := List.length (weights d).

End DiscreteDistribution.

(** ** Operations *)

Module Operations.

Section Op.

Variable cmatrix_t : Type.

(** Modelled from the spec: the operation type of the simulator (its
    header is not part of the sources), "name tag, a single embedded
    matrix, and a qubit-address list".  The members [sample_noise] does not
    touch are left out. *)
Record Op : Type := Build_Op {
  name : string;
  qubits : reg_t;
  mats : list cmatrix_t
}.

(** A default-constructed operation. *)
Definition empty : Op := Build_Op EmptyString [] [].

(** [op.name = s] *)
Definition set_name (s : string) (op : Op) : Op :=
  Build_Op s (qubits op) (mats op).

(** [op.qubits = q] *)
Definition set_qubits (q : reg_t) (op : Op) : Op :=
  Build_Op (name op) q (mats op).

(** [op.mats.push_back(m)] *)
Definition mats_push_back (m : cmatrix_t) (op : Op) : Op :=
  Build_Op (name op) (qubits op) (mats op ++ [m]).

End Op.

Arguments Build_Op {cmatrix_t} _ _ _.
Arguments name {cmatrix_t} _.
Arguments qubits {cmatrix_t} _.
Arguments mats {cmatrix_t} _.
Arguments empty {cmatrix_t}.
Arguments set_name {cmatrix_t} _ _.
Arguments set_qubits {cmatrix_t} _ _.
Arguments mats_push_back {cmatrix_t} _ _.

End Operations.

(** ** The class [UnitaryError] *)

Module Noise.

Section UnitaryError.

(** The matrix type and the random engine come from headers that are not
    part of the sources: they are parameters.  [rand_int] draws an index
    from a distribution and advances the engine. *)
Variable cmatrix_t : Type.
Variable RngEngine : Type.
Variable rand_int : DiscreteDistribution.t -> RngEngine -> uint_t * RngEngine.

Definition NoiseOps : Type := list (Operations.Op cmatrix_t).

Record UnitaryError : Type := Build_UnitaryError {
  probabilities_ : DiscreteDistribution.t;
  unitaries_ : list cmatrix_t;
  errors_after_op_ : bool;
  combine_error_ : bool
}.

(** The object after default construction. *)
Definition init : UnitaryError :=
  Build_UnitaryError DiscreteDistribution.default [] true true.

(** Assignments to the data members. *)
Definition assign_probabilities_ (d : DiscreteDistribution.t) (self : UnitaryError) :=
  Build_UnitaryError d (unitaries_ self) (errors_after_op_ self) (combine_error_ self).

Definition assign_unitaries_ (mats : list cmatrix_t) (self : UnitaryError) :=
  Build_UnitaryError (probabilities_ self) mats (errors_after_op_ self) (combine_error_ self).

Definition assign_errors_after_op_ (b : bool) (self : UnitaryError) :=
  Build_UnitaryError (probabilities_ self) (unitaries_ self) b (combine_error_ self).

Definition assign_combine_error_ (b : bool) (self : UnitaryError) :=
  Build_UnitaryError (probabilities_ self) (unitaries_ self) (errors_after_op_ self) b.

(** *** The flag setters *)

Definition set_errors_after : M UnitaryError unit :=
  modify (assign_errors_after_op_ true).

Definition set_errors_before : M UnitaryError unit :=
  modify (assign_errors_after_op_ false).

Definition combine_error (val : bool) : M UnitaryError unit :=
  modify (assign_combine_error_ val).

(** *** [set_unitaries] *)

Definition set_unitaries (mats : list cmatrix_t) : M UnitaryError unit :=
  modify (assign_unitaries_ mats).

(** *** [set_probabilities] *)

(** The two locals of the function. *)
Record locals : Type := Build_locals {
  probs_with_identity : rvector_t;
  probs_valid : bool
}.

(** [v[0]] and [v[0] -= p] on a vector that is never empty here (see
    [loop_shape] below); on an empty vector they read [nan] and write
    nothing. *)
Definition front (v : rvector_t) : float := hd nan v.

Definition front_sub (v : rvector_t) (p : float) : rvector_t :=
  match v with
  | [] => []
  | w :: tl => (w - p)%float :: tl
  end.

(** One turn of the [for] loop over [probs]. *)
Definition loop_body (l : locals) (p : float) : locals :=
  let valid := probs_valid l && negb ((p <? 0)%float || (1 <? p)%float) in
  let v := front_sub (probs_with_identity l) p in
  let v := v ++ [p] in
  Build_locals v valid.

(** The loop, from [probs_with_identity({1.})] and [probs_valid = true]. *)
Definition loop (probs : rvector_t) : locals :=
  fold_left loop_body probs (Build_locals [1%float] true).

Definition invalid_probability_vector : exception :=
  invalid_argument "UnitaryError: invalid probability vector.".

Definition set_probabilities (probs : rvector_t) : M UnitaryError unit :=
  let l := loop probs in
  if (1 <? front (probs_with_identity l))%float
     || (front (probs_with_identity l) <? 0)%float
     || negb (probs_valid l)
  then throw invalid_probability_vector
  else modify (assign_probabilities_
                 (DiscreteDistribution.of_range (probs_with_identity l))).

(** *** [sample_noise] *)

(** The call touches two objects: the channel and the engine. *)
Record World : Type := Build_World {
  this : UnitaryError;
  rng : RngEngine
}.

(** [rng.rand_int(probabilities_)] *)
Definition rng_rand_int : M World uint_t :=
  fun w =>
    let (r, g) := rand_int (probabilities_ (this w)) (rng w) in
    (Return r, Build_World (this w) g).

Definition probability_mismatch : exception :=
  invalid_argument
    "Unitary error probability vector does not match number of unitaries.".

Definition matrices_not_set : exception :=
  invalid_argument "Unitary error matrices are not set.".

Definition sample_noise (qubits : reg_t) : M World NoiseOps :=
  (r <- rng_rand_int ;;
   if r =? 0 then ret []
   else
     size <- gets (fun w => N.of_nat (List.length (unitaries_ (this w)))) ;;
     if size <? r then throw probability_mismatch
     else
       empty <- gets (fun w => match unitaries_ (this w) with
                               | [] => true
                               | _ :: _ => false
                               end) ;;
       if empty then throw matrices_not_set
       else
         unitaries <- gets (fun w => unitaries_ (this w)) ;;
         u <- subscript unitaries (Uint64.sub r 1) ;;
         let error := Operations.empty in
         let error := Operations.set_name "mat" error in
         let error := Operations.mats_push_back u error in
         let error := Operations.set_qubits qubits error in
         ret [error])%cpp.

End UnitaryError.

Arguments Build_UnitaryError {cmatrix_t} _ _ _ _.
Arguments probabilities_ {cmatrix_t} _.
Arguments unitaries_ {cmatrix_t} _.
Arguments errors_after_op_ {cmatrix_t} _.
Arguments combine_error_ {cmatrix_t} _.
Arguments init {cmatrix_t}.
Arguments assign_probabilities_ {cmatrix_t} d self.
Arguments assign_unitaries_ {cmatrix_t} mats self.
Arguments assign_errors_after_op_ {cmatrix_t} b self.
Arguments assign_combine_error_ {cmatrix_t} b self.
Arguments set_errors_after {cmatrix_t} _.
Arguments set_errors_before {cmatrix_t} _.
Arguments combine_error {cmatrix_t} val _.
Arguments set_unitaries {cmatrix_t} mats _.
Arguments set_probabilities {cmatrix_t} probs _.
Arguments Build_World {cmatrix_t RngEngine} _ _.
Arguments this {cmatrix_t RngEngine} _.
Arguments rng {cmatrix_t RngEngine} _.
Arguments rng_rand_int {cmatrix_t RngEngine} rand_int _.
Arguments sample_noise {cmatrix_t RngEngine} rand_int qubits _.

End Noise.

Import Noise.

(** ** Notions the properties are stated with *)

Module Spec.

(** [0 <= p <= 1] in double arithmetic; false of [nan]. *)
Definition in_unit_interval (p : float) : bool :=
  (0 <=? p)%float && (p <=? 1)%float.

Definition nan_free (probs : rvector_t) : bool :=
  forallb (fun p => negb (is_nan p)) probs.

(** The identity weight as the code computes it: [1], with the entries
    subtracted one after the other, each subtraction rounded. *)
Definition identity_weight (probs : rvector_t) : float :=
  fold_left PrimFloat.sub probs 1%float.

(** The test the loop of [set_probabilities] makes on an entry. *)
Definition range_checked (p : float) : bool :=
  negb ((p <? 0)%float || (1 <? p)%float).

(** Zeros and the normal and subnormal numbers: neither infinite nor
    [nan]. *)
Definition SF_is_finite (x : spec_float) : bool :=
  match x with
  | S754_zero _ | S754_finite _ _ _ => true
  | S754_infinity _ | S754_nan => false
  end.

(** [sum(probs)], added up in double arithmetic from the left. *)
Definition sum (probs : rvector_t) : float :=
  fold_left PrimFloat.add probs 0%float.

(** The rational number a finite double stands for. *)
Definition SF2Q (x : spec_float) : Q :=
  match x with
  | S754_finite s m e =>
      ((if s then Zneg m else Zpos m) # 1) * Qpower (2 # 1) e
  | _ => 0
  end%Q.

Definition to_Q (x : float) : Q := SF2Q (Prim2SF x).

(** [sum(probs)] without rounding. *)
Definition exact_sum (probs : rvector_t) : Q :=
  fold_right (fun p acc => to_Q p + acc)%Q 0%Q probs.

(** The invariant of the data model:
    [len(probabilities) == len(matrices) + 1]. *)
Definition arity_invariant {cmatrix_t} (self : UnitaryError cmatrix_t) : Prop :=
  DiscreteDistribution.size (probabilities_ self)
  = S (List.length (unitaries_ self)).

Section Draw.

Variable cmatrix_t : Type.
Variable RngEngine : Type.
Variable rand_int : DiscreteDistribution.t -> RngEngine -> uint_t * RngEngine.

(** The index the engine draws in [w], and [w] once it is drawn. *)
Definition drawn (w : World cmatrix_t RngEngine) : uint_t :=
  fst (rand_int (probabilities_ (this w)) (rng w)).

Definition after_draw (w : World cmatrix_t RngEngine) : World cmatrix_t RngEngine :=
  Build_World (this w) (snd (rand_int (probabilities_ (this w)) (rng w))).

(** The matrix-application operation for the matrix [u]. *)
Definition error_op (qubits : reg_t) (u : cmatrix_t) : Operations.Op cmatrix_t :=
  Operations.Build_Op "mat" qubits [u].

(** The ways a call of [sample_noise] can end, by the index [r] it drew
    and the matrices it found. *)
Inductive sampled (unitaries : list cmatrix_t) (qubits : reg_t) (r : uint_t)
  : outcome (list (Operations.Op cmatrix_t)) -> Prop :=
| sampled_identity :
    r = 0 ->
    sampled unitaries qubits r (Return [])
| sampled_mismatch :
    r <> 0 -> N.of_nat (List.length unitaries) < r ->
    sampled unitaries qubits r (Throw probability_mismatch)
| sampled_error (u : cmatrix_t) :
    r <> 0 -> r <= N.of_nat (List.length unitaries) ->
    nth_error unitaries (N.to_nat (Uint64.sub r 1)) = Some u ->
    sampled unitaries qubits r (Return [error_op qubits u]).

End Draw.

Arguments drawn {cmatrix_t RngEngine} rand_int w.
Arguments after_draw {cmatrix_t RngEngine} rand_int w.
Arguments error_op {cmatrix_t} qubits u.
Arguments sampled {cmatrix_t} unitaries qubits r _.
Arguments sampled_identity {cmatrix_t} unitaries qubits r _.
Arguments sampled_mismatch {cmatrix_t} unitaries qubits r _ _.
Arguments sampled_error {cmatrix_t} unitaries qubits r u _ _ _.

End Spec.

(** ** Concrete instances the properties are exercised on *)

Module Example.

(** Matrices with Gaussian-integer entries [(re, im)]. *)
Definition cmatrix_t : Type := list (list (Z * Z)).

Definition pauli_x : cmatrix_t := [[(0, 0); (1, 0)]; [(1, 0); (0, 0)]]%Z.
Definition pauli_z : cmatrix_t := [[(1, 0); (0, 0)]; [(0, 0); (-1, 0)]]%Z.

(** An engine that replays a script of draws, whatever the distribution;
    it keeps drawing [0] when the script is over. *)
Definition RngEngine : Type := list uint_t.

Definition rand_int (d : DiscreteDistribution.t) (g : RngEngine)
  : uint_t * RngEngine :=
  match g with
  | [] => (0, [])
  | r :: g' => (r, g')
  end.

(** The default channel after [set_probabilities({0.5})] and
    [set_unitaries({X})]. *)
Definition configured : UnitaryError cmatrix_t :=
  snd (set_unitaries [pauli_x] (snd (set_probabilities [0.5%float] init))).

(** A channel with two error matrices, configured consistently. *)
Definition two_errors : UnitaryError cmatrix_t :=
  Build_UnitaryError
    (DiscreteDistribution.Build [0.25; 0.25; 0.5]%float)
    [pauli_x; pauli_z] true true.

(** That channel and an engine about to draw [2], then [0]. *)
Definition world : World cmatrix_t RngEngine :=
  Build_World two_errors [2; 0].

End Example.

(** * Properties *)

(** ** Unsigned arithmetic *)

Lemma uint64_sub_no_wrap (r : N) :
  1 <= r -> Uint64.wf r -> Uint64.sub r 1 = r - 1.
Proof.
  unfold Uint64.wf, Uint64.sub. intros H1 Hwf.
  assert (Hm : 1 < Uint64.modulus) by (vm_compute; reflexivity).
  rewrite (N.mod_small 1) by exact Hm.
  replace (r + (Uint64.modulus - 1)) with (r - 1 + 1 * Uint64.modulus) by lia.
  rewrite N.Div0.mod_add. apply N.mod_small. lia.
Qed.

Lemma uint64_sub_le (r : N) : 1 <= r -> Uint64.sub r 1 <= r - 1.
Proof.
  unfold Uint64.sub. intros H1.
  assert (Hm : 1 < Uint64.modulus) by (vm_compute; reflexivity).
  rewrite (N.mod_small 1) by exact Hm.
  replace (r + (Uint64.modulus - 1)) with (r - 1 + 1 * Uint64.modulus) by lia.
  rewrite N.Div0.mod_add. apply N.Div0.mod_le.
Qed.

(** ** Double arithmetic *)

Section Rounding.

Variables prec emax : Z.

Lemma iter_pos_invariant {A} (P : A -> Prop) (f : A -> A) :
  (forall x, P x -> P (f x)) -> forall n x, P x -> P (iter_pos f n x).
Proof.
  intros Hf. induction n as [n IH|n IH|]; intros x Hx; simpl.
  - apply IH, IH, Hf, Hx.
  - apply IH, IH, Hx.
  - apply Hf, Hx.
Qed.

Lemma shr_1_nonneg mrs : (0 <= shr_m mrs)%Z -> (0 <= shr_m (shr_1 mrs))%Z.
Proof.
  destruct mrs as [m r s]; simpl. intros Hm.
  destruct m as [|p|p]; [simpl; lia | | lia].
  destruct p; simpl; lia.
Qed.

Lemma shr_nonneg mrs e n :
  (0 <= shr_m mrs)%Z -> (0 <= shr_m (fst (shr mrs e n)))%Z.
Proof.
  intros Hm. destruct n as [|p|p]; simpl; try exact Hm.
  apply (iter_pos_invariant (fun x => (0 <= shr_m x)%Z));
    [apply shr_1_nonneg | exact Hm].
Qed.

Lemma shr_record_of_loc_m m l : shr_m (shr_record_of_loc m l) = m.
Proof. destruct l as [|[]]; reflexivity. Qed.

Lemma shr_fexp_nonneg m e l :
  (0 <= m)%Z -> (0 <= shr_m (fst (shr_fexp prec emax m e l)))%Z.
Proof.
  intros Hm. unfold shr_fexp. apply shr_nonneg.
  rewrite shr_record_of_loc_m. exact Hm.
Qed.

Lemma round_nearest_even_nonneg m l :
  (0 <= m)%Z -> (0 <= round_nearest_even m l)%Z.
Proof.
  intros Hm. destruct l as [|[]]; simpl; try lia.
  destruct (Z.even m); lia.
Qed.

(** Rounding a non-negative mantissa gives a zero, a finite number or an
    infinity. *)
Lemma binary_round_aux_not_nan sx mx ex lx :
  (0 <= mx)%Z -> binary_round_aux prec emax sx mx ex lx <> S754_nan.
Proof.
  intros Hm. unfold binary_round_aux.
  pose proof (shr_fexp_nonneg mx ex lx Hm) as H1.
  destruct (shr_fexp prec emax mx ex lx) as [mrs' e']. simpl in H1.
  pose proof (shr_fexp_nonneg _ e' loc_Exact
                (round_nearest_even_nonneg _ (loc_of_shr_record mrs') H1)) as H2.
  destruct (shr_fexp prec emax _ e' loc_Exact) as [mrs'' e'']. simpl in H2.
  destruct (shr_m mrs'') as [|p|p]; [discriminate | | lia].
  destruct (Z.leb e'' (emax - prec)); discriminate.
Qed.

Lemma binary_normalize_not_nan m e sz :
  binary_normalize prec emax m e sz <> S754_nan.
Proof.
  destruct m as [|p|p]; simpl; [discriminate | |];
    unfold binary_round;
    destruct (shl_align _ _ _) as [mz ez];
    apply binary_round_aux_not_nan; lia.
Qed.

(** Subtracting a finite number never produces [nan]. *)
Lemma SFsub_not_nan a b :
  a <> S754_nan -> Spec.SF_is_finite b = true ->
  SFsub prec emax a b <> S754_nan.
Proof.
  intros Ha Hb.
  destruct a as [sa|sa| |sa ma ea], b as [sb|sb| |sb mb eb];
    try discriminate; try contradiction; simpl.
  - destruct sa, sb; discriminate.
  - apply binary_normalize_not_nan.
Qed.

End Rounding.

Lemma SFcompare_antisym (a b : spec_float) :
  SFcompare b a = option_map CompOpp (SFcompare a b).
Proof.
  destruct a as [sa|sa| |sa ma ea], b as [sb|sb| |sb mb eb]; simpl;
    try reflexivity;
    try (destruct sa; reflexivity); try (destruct sb; reflexivity);
    try (destruct sa, sb; reflexivity).
  destruct sa, sb; simpl; try reflexivity.
  - rewrite (Z.compare_antisym ea eb).
    destruct (ea ?= eb)%Z; simpl; try reflexivity.
    rewrite (Pos.compare_cont_antisym ma mb Eq). reflexivity.
  - rewrite (Z.compare_antisym ea eb).
    destruct (ea ?= eb)%Z; simpl; try reflexivity.
    rewrite (Pos.compare_cont_antisym ma mb Eq). simpl.
    destruct (Pos.compare_cont Eq ma mb); reflexivity.
Qed.

Lemma SFcompare_total (a b : spec_float) :
  a <> S754_nan -> b <> S754_nan -> exists c, SFcompare a b = Some c.
Proof.
  intros Ha Hb.
  destruct a, b; try contradiction; simpl; eexists; reflexivity.
Qed.

Lemma is_nan_spec (x : float) : is_nan x = false <-> Prim2SF x <> S754_nan.
Proof.
  unfold is_nan. rewrite eqb_spec. unfold SFeqb. split.
  - intros H E. rewrite E in H. discriminate.
  - intros H. destruct (Prim2SF x) as [s|s| |s m e]; simpl.
    + reflexivity.
    + destruct s; reflexivity.
    + contradiction.
    + destruct s; rewrite Z.compare_refl, Pos.compare_cont_refl; reflexivity.
Qed.

(** On numbers, [<] is the negation of the converse [<=]. *)
Lemma ltb_negb_leb (x y : float) :
  is_nan x = false -> is_nan y = false ->
  (x <? y)%float = negb (y <=? x)%float.
Proof.
  intros Hx Hy. apply is_nan_spec in Hx, Hy.
  rewrite ltb_spec, leb_spec. unfold SFltb, SFleb.
  rewrite (SFcompare_antisym (Prim2SF x) (Prim2SF y)).
  destruct (SFcompare_total _ _ Hx Hy) as [c ->]. destruct c; reflexivity.
Qed.

Lemma Prim2SF_zero : Prim2SF 0%float = S754_zero false.
Proof. vm_compute. reflexivity. Qed.

Lemma Prim2SF_one : Prim2SF 1%float = S754_finite false 4503599627370496 (-52).
Proof. vm_compute. reflexivity. Qed.

Lemma in_unit_interval_finite (p : float) :
  Spec.in_unit_interval p = true -> Spec.SF_is_finite (Prim2SF p) = true.
Proof.
  unfold Spec.in_unit_interval. rewrite !leb_spec, Prim2SF_zero, Prim2SF_one.
  unfold SFleb. destruct (Prim2SF p) as [s|s| |s m e].
  - reflexivity.
  - destruct s; cbn [SFcompare andb]; intros H; discriminate.
  - cbn [SFcompare andb]; intros H; discriminate.
  - reflexivity.
Qed.

Lemma in_unit_interval_not_nan (p : float) :
  Spec.in_unit_interval p = true -> is_nan p = false.
Proof.
  intros H. apply is_nan_spec. apply in_unit_interval_finite in H.
  destruct (Prim2SF p); discriminate.
Qed.

(** On numbers the loop's test is membership of [[0, 1]]. *)
Lemma range_checked_in_unit_interval (p : float) :
  is_nan p = false -> Spec.range_checked p = Spec.in_unit_interval p.
Proof.
  intros Hp. unfold Spec.range_checked, Spec.in_unit_interval.
  assert (H0 : is_nan 0%float = false) by (vm_compute; reflexivity).
  assert (H1 : is_nan 1%float = false) by (vm_compute; reflexivity).
  rewrite (ltb_negb_leb p 0 Hp H0), (ltb_negb_leb 1 p H1 Hp).
  rewrite negb_orb, !negb_involutive. reflexivity.
Qed.

(** The running difference stays a number as long as finite entries are
    subtracted. *)
Lemma identity_weight_not_nan (probs : rvector_t) (w : float) :
  is_nan w = false ->
  forallb Spec.in_unit_interval probs = true ->
  is_nan (fold_left PrimFloat.sub probs w) = false.
Proof.
  revert w. induction probs as [|p probs IH]; intros w Hw Hall; simpl.
  - exact Hw.
  - simpl in Hall. apply andb_prop in Hall as [Hp Hall].
    apply IH; [|exact Hall].
    apply is_nan_spec. rewrite sub_spec. apply SFsub_not_nan.
    + apply is_nan_spec, Hw.
    + apply in_unit_interval_finite, Hp.
Qed.

(** ** [sample_noise] *)

Section SampleNoise.

Variable cmatrix_t : Type.
Variable RngEngine : Type.
Variable rand_int : DiscreteDistribution.t -> RngEngine -> uint_t * RngEngine.

Implicit Types (w : World cmatrix_t RngEngine) (qubits : reg_t).

(** The function, branch by branch. *)
Lemma sample_noise_run qubits w :
  sample_noise rand_int qubits w =
    if Spec.drawn rand_int w =? 0 then (Return [], Spec.after_draw rand_int w)
    else if N.of_nat (List.length (unitaries_ (this w))) <? Spec.drawn rand_int w
    then (Throw probability_mismatch, Spec.after_draw rand_int w)
    else match unitaries_ (this w) with
         | [] => (Throw matrices_not_set, Spec.after_draw rand_int w)
         | _ :: _ =>
             match nth_error (unitaries_ (this w))
                             (N.to_nat (Uint64.sub (Spec.drawn rand_int w) 1)) with
             | Some u => (Return [Spec.error_op qubits u], Spec.after_draw rand_int w)
             | None => (Undefined, Spec.after_draw rand_int w)
             end
         end.
Proof.
  unfold Spec.drawn, Spec.after_draw.
  unfold sample_noise, bind, rng_rand_int.
  destruct (rand_int (probabilities_ (this w)) (rng w)) as [r g]; cbn.
  destruct (r =? 0); [reflexivity|]. unfold gets; cbn.
  destruct (N.of_nat (List.length (unitaries_ (this w))) <? r); [reflexivity|].
  cbn. destruct (unitaries_ (this w)) as [|u0 us] eqn:Hu; [reflexivity|].
  cbn. unfold subscript. rewrite Hu.
  destruct (nth_error (u0 :: us) (N.to_nat (Uint64.sub r 1))); reflexivity.
Qed.

(** Whenever the subscript is reached, it is inside the vector. *)
Lemma subscript_in_range (unitaries : list cmatrix_t) (r : uint_t) :
  (r =? 0) = false ->
  (N.of_nat (List.length unitaries) <? r) = false ->
  exists u, nth_error unitaries (N.to_nat (Uint64.sub r 1)) = Some u.
Proof.
  intros H0 Hle. apply N.eqb_neq in H0. apply N.ltb_ge in Hle.
  assert (Hs : Uint64.sub r 1 <= r - 1) by (apply uint64_sub_le; lia).
  destruct (nth_error unitaries (N.to_nat (Uint64.sub r 1))) as [u|] eqn:E.
  - now exists u.
  - apply nth_error_None in E. lia.
Qed.

(** Where the call leaves the two objects. *)
Lemma sample_noise_final_state qubits w :
  snd (sample_noise rand_int qubits w) = Spec.after_draw rand_int w.
Proof.
  rewrite sample_noise_run.
  destruct (Spec.drawn rand_int w =? 0); [reflexivity|].
  destruct (N.of_nat (List.length (unitaries_ (this w))) <? Spec.drawn rand_int w);
    [reflexivity|].
  destruct (unitaries_ (this w)); [reflexivity|].
  destruct (nth_error _ _); reflexivity.
Qed.

(** How the call ends: one of the three cases of [Spec.sampled].  The
    subscript is always inside the vector, and the test for an empty
    vector never fires. *)
Lemma sample_noise_sampled qubits w :
  Spec.sampled (unitaries_ (this w)) qubits (Spec.drawn rand_int w)
               (fst (sample_noise rand_int qubits w)).
Proof.
  rewrite sample_noise_run.
  destruct (Spec.drawn rand_int w =? 0) eqn:H0.
  { apply N.eqb_eq in H0. now constructor. }
  destruct (N.of_nat (List.length (unitaries_ (this w))) <? Spec.drawn rand_int w) eqn:Hlt.
  { apply N.eqb_neq in H0. apply N.ltb_lt in Hlt. now constructor. }
  destruct (subscript_in_range _ _ H0 Hlt) as [u Hu].
  apply N.eqb_neq in H0. apply N.ltb_ge in Hlt.
  destruct (unitaries_ (this w)) as [|u0 us] eqn:Hus.
  { simpl in Hlt. lia. }
  rewrite Hu. now constructor.
Qed.

(** C1: [sample_noise] draws one index [r] from the configured
    distribution (the engine is left as one [rand_int] on
    [probabilities_] leaves it); when [r == 0] it returns the empty
    sequence, and when [1 <= r <= len(matrices)] it returns exactly one
    operation, named "mat", whose only matrix is [matrices[r-1]]. *)
Theorem sample_noise_draw qubits w :
  Uint64.wf (Spec.drawn rand_int w) ->
  snd (sample_noise rand_int qubits w) = Spec.after_draw rand_int w
  /\ (Spec.drawn rand_int w = 0 ->
      fst (sample_noise rand_int qubits w) = Return [])
  /\ (1 <= Spec.drawn rand_int w <= N.of_nat (List.length (unitaries_ (this w))) ->
      exists u,
        nth_error (unitaries_ (this w)) (N.to_nat (Spec.drawn rand_int w - 1)) = Some u
        /\ fst (sample_noise rand_int qubits w)
           = Return [Operations.Build_Op "mat" qubits [u]]).
Proof.
  intros Hwf. split; [apply sample_noise_final_state|].
  destruct (sample_noise_sampled qubits w) as [H0 | H0 Hlt | u H0 Hle Hu].
  - split; [reflexivity | lia].
  - split; [contradiction | lia].
  - split; [contradiction|]. intros [H1 _].
    rewrite uint64_sub_no_wrap in Hu by assumption.
    exists u. split; [exact Hu | reflexivity].
Qed.

(** C3: [sample_noise] throws exactly when the drawn index is non-zero and
    exceeds the number of matrices, or the matrix list is empty; the
    exception is one of the function's two [std::invalid_argument]s, it
    reaches the caller as the outcome of the call, and no operation is
    returned. *)
Theorem sample_noise_throws qubits w :
  ((exists e, fst (sample_noise rand_int qubits w) = Throw e)
   <-> Spec.drawn rand_int w <> 0
       /\ (N.of_nat (List.length (unitaries_ (this w))) < Spec.drawn rand_int w
           \/ unitaries_ (this w) = []))
  /\ (forall e, fst (sample_noise rand_int qubits w) = Throw e ->
        (e = probability_mismatch \/ e = matrices_not_set)
        /\ forall ops, fst (sample_noise rand_int qubits w) <> Return ops).
Proof.
  destruct (sample_noise_sampled qubits w) as [H0 | H0 Hlt | u H0 Hle Hu].
  - split.
    + split; [intros [e He]; discriminate | intros [Hr _]; contradiction].
    + intros e He; discriminate.
  - split.
    + split; [intros _; split; [exact H0 | left; exact Hlt]
             | intros _; eexists; reflexivity].
    + intros e He. injection He as <-. split; [left; reflexivity | discriminate].
  - split.
    + split; [intros [e He]; discriminate|].
      intros [_ [Hc | Hc]]; [lia|].
      rewrite Hc in Hle. simpl in Hle. lia.
    + intros e He; discriminate.
Qed.

(** C4: every operation [sample_noise] returns addresses exactly the
    qubits the call was given. *)
Theorem sample_noise_qubits qubits w ops op :
  fst (sample_noise rand_int qubits w) = Return ops ->
  In op ops ->
  Operations.qubits op = qubits.
Proof.
  destruct (sample_noise_sampled qubits w) as [H0 | H0 Hlt | u H0 Hle Hu].
  - intros H; injection H as <-. intros [].
  - discriminate.
  - intros H; injection H as <-. intros [<- | []]. reflexivity.
Qed.

(** C7: [sample_noise] assigns no data member of the channel: after the
    call [probabilities_], [unitaries_], [errors_after_op_] and
    [combine_error_] are what they were; only the engine has advanced.
    Its outcome is determined by the matrices, the qubits and the index
    drawn: two calls that agree on them end alike, whatever the flags and
    the engines. *)
Theorem sample_noise_frame qubits w :
  this (snd (sample_noise rand_int qubits w)) = this w
  /\ rng (snd (sample_noise rand_int qubits w))
     = snd (rand_int (probabilities_ (this w)) (rng w))
  /\ forall w',
       unitaries_ (this w') = unitaries_ (this w) ->
       Spec.drawn rand_int w' = Spec.drawn rand_int w ->
       fst (sample_noise rand_int qubits w') = fst (sample_noise rand_int qubits w).
Proof.
  rewrite sample_noise_final_state. repeat split.
  intros w' Hu Hr. rewrite !sample_noise_run, Hu, Hr.
  destruct (Spec.drawn rand_int w =? 0); [reflexivity|].
  destruct (_ <? _); [reflexivity|].
  destruct (unitaries_ (this w)); [reflexivity|].
  destruct (nth_error _ _); reflexivity.
Qed.

(** C9: the branch that throws "Unitary error matrices are not set." is
    dead: with an empty matrix list every non-zero index exceeds the
    matrix count, so the mismatch exception is thrown before it. *)
Theorem sample_noise_never_not_set qubits w :
  fst (sample_noise rand_int qubits w) <> Throw matrices_not_set
  /\ (Spec.drawn rand_int w <> 0 -> unitaries_ (this w) = [] ->
      fst (sample_noise rand_int qubits w) = Throw probability_mismatch).
Proof.
  destruct (sample_noise_sampled qubits w) as [H0 | H0 Hlt | u H0 Hle Hu].
  - split; [discriminate | contradiction].
  - split; [discriminate | reflexivity].
  - split; [discriminate|]. intros _ Hus.
    rewrite Hus in Hle. simpl in Hle. lia.
Qed.

End SampleNoise.

(** ** The setters *)

Section Setters.

Variable cmatrix_t : Type.

Implicit Types (self : UnitaryError cmatrix_t) (probs : rvector_t).

(** The loop of [set_probabilities] from any state of its locals with a
    non-empty vector. *)
Lemma loop_from probs (w : float) (tl : rvector_t) (valid : bool) :
  fold_left loop_body probs (Build_locals (w :: tl) valid)
  = Build_locals (fold_left PrimFloat.sub probs w :: tl ++ probs)
                 (valid && forallb Spec.range_checked probs).
Proof.
  revert w tl valid. induction probs as [|p probs IH]; intros w tl valid; simpl.
  - rewrite app_nil_r, andb_true_r. reflexivity.
  - unfold loop_body at 2. simpl. rewrite IH.
    rewrite <- app_assoc, andb_assoc. reflexivity.
Qed.

(** The vector the loop builds: the identity weight, then the entries. *)
Lemma loop_shape probs :
  loop probs
  = Build_locals (Spec.identity_weight probs :: probs)
                 (forallb Spec.range_checked probs).
Proof. unfold loop. rewrite loop_from. reflexivity. Qed.

(** The function, branch by branch. *)
Lemma set_probabilities_run probs self :
  set_probabilities probs self =
    if (1 <? Spec.identity_weight probs)%float
       || (Spec.identity_weight probs <? 0)%float
       || negb (forallb Spec.range_checked probs)
    then (Throw invalid_probability_vector, self)
    else (Return tt,
          assign_probabilities_
            (DiscreteDistribution.Build (Spec.identity_weight probs :: probs))
            self).
Proof.
  unfold set_probabilities. rewrite loop_shape. simpl.
  destruct (_ || _ || _); reflexivity.
Qed.

(** Whether the call returns does not depend on the channel. *)
Lemma set_probabilities_outcome probs self self' :
  fst (set_probabilities probs self) = fst (set_probabilities probs self').
Proof.
  rewrite !set_probabilities_run. destruct (_ || _ || _); reflexivity.
Qed.

(** C2 (amended): for every sequence of doubles without [nan],
    [set_probabilities] returns normally if and only if every entry lies
    in [[0, 1]] and so does the identity weight, computed in double
    arithmetic as [1] minus the entries one after the other; the weight
    vector then becomes that weight followed by the entries as given.
    Otherwise the call throws [std::invalid_argument] and assigns
    nothing: no clamping, no renormalisation. *)
Theorem set_probabilities_accepts probs self :
  Spec.nan_free probs = true ->
  (fst (set_probabilities probs self) = Return tt
   <-> forallb Spec.in_unit_interval probs = true
       /\ Spec.in_unit_interval (Spec.identity_weight probs) = true)
  /\ (fst (set_probabilities probs self) = Return tt ->
      snd (set_probabilities probs self)
      = assign_probabilities_
          (DiscreteDistribution.Build (Spec.identity_weight probs :: probs))
          self)
  /\ (fst (set_probabilities probs self) <> Return tt ->
      fst (set_probabilities probs self) = Throw invalid_probability_vector
      /\ snd (set_probabilities probs self) = self).
Proof.
  intros Hnan.
  assert (Hrc : forallb Spec.range_checked probs
                = forallb Spec.in_unit_interval probs).
  { unfold Spec.nan_free in Hnan.
    induction probs as [|p probs IH]; [reflexivity|]. simpl in *.
    apply andb_prop in Hnan as [Hp Hnan]. apply negb_true_iff in Hp.
    rewrite IH by exact Hnan.
    rewrite range_checked_in_unit_interval by exact Hp. reflexivity. }
  assert (H1 : is_nan 1%float = false) by (vm_compute; reflexivity).
  assert (H0 : is_nan 0%float = false) by (vm_compute; reflexivity).
  rewrite set_probabilities_run, Hrc.
  destruct (forallb Spec.in_unit_interval probs) eqn:Hall.
  - pose proof (identity_weight_not_nan probs 1%float H1 Hall) as Hw.
    fold (Spec.identity_weight probs) in Hw.
    rewrite (ltb_negb_leb 1 _ H1 Hw), (ltb_negb_leb _ 0 Hw H0).
    unfold Spec.in_unit_interval.
    destruct (0 <=? Spec.identity_weight probs)%float,
             (Spec.identity_weight probs <=? 1)%float; simpl;
      (split; [split; [try discriminate; intros _; split; reflexivity
                      | intros [_ H]; try discriminate; reflexivity]
              |split; [try discriminate; reflexivity
                      | intros H; try (exfalso; apply H; reflexivity);
                        split; reflexivity]]).
  - rewrite orb_true_r. simpl. split; [split|split].
    + discriminate.
    + intros [H _]; discriminate.
    + discriminate.
    + intros _. split; reflexivity.
Qed.

(** C10: a [set_probabilities] that throws leaves every data member of
    the channel as it was: the locals are built and tested before
    [probabilities_] is assigned. *)
Theorem set_probabilities_atomic probs self e :
  fst (set_probabilities probs self) = Throw e ->
  snd (set_probabilities probs self) = self
  /\ e = invalid_probability_vector.
Proof.
  rewrite set_probabilities_run. destruct (_ || _ || _); simpl.
  - intros H; injection H as <-. split; reflexivity.
  - discriminate.
Qed.

(** C5 (amended): a [set_probabilities(probs)] that returns leaves a
    weight vector of length [len(probs) + 1] and the matrices untouched;
    [set_unitaries(mats)] leaves [len(mats)] matrices and the weights
    untouched.  So [len(probabilities) == len(matrices) + 1] holds after
    such a call exactly when the argument is as long as the other member
    requires, and in particular once both setters were called, in either
    order, with arguments of equal length. *)
Theorem setters_arity probs (mats : list cmatrix_t) self :
  fst (set_probabilities probs self) = Return tt ->
  (DiscreteDistribution.size (probabilities_ (snd (set_probabilities probs self)))
     = S (List.length probs)
   /\ unitaries_ (snd (set_probabilities probs self)) = unitaries_ self)
  /\ (unitaries_ (snd (set_unitaries mats self)) = mats
      /\ probabilities_ (snd (set_unitaries mats self)) = probabilities_ self)
  /\ (Spec.arity_invariant (snd (set_probabilities probs self))
      <-> List.length probs = List.length (unitaries_ self))
  /\ (Spec.arity_invariant (snd (set_unitaries mats self))
      <-> DiscreteDistribution.size (probabilities_ self) = S (List.length mats))
  /\ (List.length probs = List.length mats ->
      Spec.arity_invariant
        (snd (set_unitaries mats (snd (set_probabilities probs self))))
      /\ Spec.arity_invariant
           (snd (set_probabilities probs (snd (set_unitaries mats self))))).
Proof.
  intros Hok.
  assert (Hrun : forall c : UnitaryError cmatrix_t,
             set_probabilities probs c
             = (Return tt,
                assign_probabilities_
                  (DiscreteDistribution.Build (Spec.identity_weight probs :: probs)) c)).
  { intros c. rewrite set_probabilities_run in *.
    destruct (_ || _ || _); [discriminate | reflexivity]. }
  rewrite !Hrun. unfold Spec.arity_invariant, DiscreteDistribution.size. simpl.
  repeat split; try reflexivity.
  all: try (intros Hlen; simpl in *; lia).
  all: lia.
Qed.

(** C8: the two setters are idempotent and, for a probability vector the
    channel accepts, commute: calling one again with the same argument
    changes nothing, and the two orders of [set_probabilities(probs)] and
    [set_unitaries(mats)] end in the same channel. *)
Theorem setters_idempotent_commute probs (mats : list cmatrix_t) self :
  fst (set_probabilities probs self) = Return tt ->
  (set_probabilities probs ;; set_probabilities probs)%cpp self
    = set_probabilities probs self
  /\ (set_unitaries mats ;; set_unitaries mats)%cpp self = set_unitaries mats self
  /\ (set_probabilities probs ;; set_unitaries mats)%cpp self
     = (set_unitaries mats ;; set_probabilities probs)%cpp self.
Proof.
  intros Hok.
  assert (Hrun : forall c : UnitaryError cmatrix_t,
             set_probabilities probs c
             = (Return tt,
                assign_probabilities_
                  (DiscreteDistribution.Build (Spec.identity_weight probs :: probs)) c)).
  { intros c. rewrite set_probabilities_run in *.
    destruct (_ || _ || _); [discriminate | reflexivity]. }
  unfold bind. rewrite !Hrun. repeat split.
  unfold set_unitaries, modify. rewrite Hrun. reflexivity.
Qed.

End Setters.

(** ** The flag setters *)

Section Flags.

Variable cmatrix_t : Type.
Variable RngEngine : Type.
Variable rand_int : DiscreteDistribution.t -> RngEngine -> uint_t * RngEngine.

(** [sample_noise] reads the channel through [probabilities_] and
    [unitaries_] only. *)
Lemma sample_noise_reads (self self' : UnitaryError cmatrix_t) (g : RngEngine) qubits :
  probabilities_ self' = probabilities_ self ->
  unitaries_ self' = unitaries_ self ->
  fst (sample_noise rand_int qubits (Build_World self' g))
    = fst (sample_noise rand_int qubits (Build_World self g))
  /\ rng (snd (sample_noise rand_int qubits (Build_World self' g)))
     = rng (snd (sample_noise rand_int qubits (Build_World self g))).
Proof.
  intros Hp Hu. rewrite !sample_noise_run.
  unfold Spec.drawn, Spec.after_draw. cbn [this rng]. rewrite Hp, Hu.
  destruct (_ =? 0); [split; reflexivity|].
  destruct (_ <? _); [split; reflexivity|].
  destruct (unitaries_ self); [split; reflexivity|].
  destruct (nth_error _ _); split; reflexivity.
Qed.

(** C6: [set_errors_after], [set_errors_before] and [combine_error]
    return normally and assign their own flag only: the distribution, the
    matrices and the other flag are what they were, and a [sample_noise]
    that follows ends as it would have without the call, with the same
    outcome and the same engine. *)
Theorem flag_setters_frame (self : UnitaryError cmatrix_t) (val : bool) :
  set_errors_after self
    = (Return tt,
       Build_UnitaryError (probabilities_ self) (unitaries_ self)
                          true (combine_error_ self))
  /\ set_errors_before self
     = (Return tt,
        Build_UnitaryError (probabilities_ self) (unitaries_ self)
                           false (combine_error_ self))
  /\ combine_error val self
     = (Return tt,
        Build_UnitaryError (probabilities_ self) (unitaries_ self)
                           (errors_after_op_ self) val)
  /\ forall self',
       self' = snd (set_errors_after self)
       \/ self' = snd (set_errors_before self)
       \/ self' = snd (combine_error val self) ->
       forall qubits (g : RngEngine),
         fst (sample_noise rand_int qubits (Build_World self' g))
           = fst (sample_noise rand_int qubits (Build_World self g))
         /\ rng (snd (sample_noise rand_int qubits (Build_World self' g)))
            = rng (snd (sample_noise rand_int qubits (Build_World self g))).
Proof.
  repeat split; try reflexivity;
    destruct H as [-> | [-> | ->]];
    apply sample_noise_reads; reflexivity.
Qed.

End Flags.

(** ** The properties at concrete channels *)

(** With two matrices and the engine about to draw [2], the call returns
    the operation of the second matrix and leaves the rest of the script. *)
Lemma sample_noise_draw_witness :
  Uint64.wf (Spec.drawn Example.rand_int Example.world)
  /\ sample_noise Example.rand_int [3] Example.world
     = (Return [Operations.Build_Op "mat" [3] [Example.pauli_z]],
        Build_World Example.two_errors [0]).
Proof.
  assert (Hwf : Uint64.wf (Spec.drawn Example.rand_int Example.world))
    by (vm_compute; reflexivity).
  split; [exact Hwf|].
  destruct (sample_noise_draw _ _ Example.rand_int [3] Example.world Hwf)
    as (Hs & _ & Hop).
  destruct Hop as [u [Hu Hr]].
  { vm_compute. split; discriminate. }
  vm_compute in Hu. injection Hu as <-.
  rewrite (surjective_pairing (sample_noise _ _ _)), Hs, Hr. reflexivity.
Defined.

(** The operation returned for the qubits [{3}] addresses [{3}]. *)
Lemma sample_noise_qubits_witness :
  fst (sample_noise Example.rand_int [3] Example.world)
    = Return [Operations.Build_Op "mat" [3] [Example.pauli_z]]
  /\ Operations.qubits (Operations.Build_Op "mat" [3] [Example.pauli_z]) = [3].
Proof.
  assert (H : fst (sample_noise Example.rand_int [3] Example.world)
              = Return [Operations.Build_Op "mat" [3] [Example.pauli_z]])
    by (vm_compute; reflexivity).
  split; [exact H|].
  apply (sample_noise_qubits _ _ Example.rand_int [3] Example.world _ _ H).
  left. reflexivity.
Defined.

(** [{0.25, 0.5}] is accepted; the identity weight is [0.25]. *)
Lemma set_probabilities_accepts_witness :
  Spec.nan_free [0.25; 0.5]%float = true
  /\ set_probabilities [0.25; 0.5]%float Example.configured
     = (Return tt,
        Build_UnitaryError (DiscreteDistribution.Build [0.25; 0.25; 0.5]%float)
                           [Example.pauli_x] true true).
Proof.
  assert (Hnan : Spec.nan_free [0.25; 0.5]%float = true) by (vm_compute; reflexivity).
  split; [exact Hnan|].
  destruct (set_probabilities_accepts _ [0.25; 0.5]%float Example.configured Hnan)
    as ([_ Hacc] & Hst & _).
  assert (Hret : fst (set_probabilities [0.25; 0.5]%float Example.configured) = Return tt).
  { apply Hacc. vm_compute. split; reflexivity. }
  rewrite (surjective_pairing (set_probabilities _ _)), Hret, (Hst Hret).
  vm_compute. reflexivity.
Defined.

(** [{0.75, 0.5}] is rejected and the channel is as before. *)
Lemma set_probabilities_atomic_witness :
  fst (set_probabilities [0.75; 0.5]%float Example.configured)
    = Throw invalid_probability_vector
  /\ snd (set_probabilities [0.75; 0.5]%float Example.configured)
     = Example.configured.
Proof.
  assert (H : fst (set_probabilities [0.75; 0.5]%float Example.configured)
              = Throw invalid_probability_vector) by (vm_compute; reflexivity).
  split; [exact H|].
  apply (set_probabilities_atomic _ _ _ _ H).
Defined.

(** Two probabilities and two matrices make a consistent channel. *)
Lemma setters_arity_witness :
  fst (set_probabilities [0.25; 0.5]%float (@init Example.cmatrix_t)) = Return tt
  /\ Spec.arity_invariant
       (snd (set_unitaries [Example.pauli_x; Example.pauli_z]
               (snd (set_probabilities [0.25; 0.5]%float init)))).
Proof.
  assert (H : fst (set_probabilities [0.25; 0.5]%float (@init Example.cmatrix_t))
              = Return tt) by (vm_compute; reflexivity).
  split; [exact H|].
  apply (setters_arity _ _ [Example.pauli_x; Example.pauli_z] _ H).
  reflexivity.
Defined.

(** The two orders of configuring two probabilities and two matrices. *)
Lemma setters_idempotent_commute_witness :
  fst (set_probabilities [0.25; 0.5]%float Example.configured) = Return tt
  /\ (set_probabilities [0.25; 0.5]%float ;;
      set_unitaries [Example.pauli_x; Example.pauli_z])%cpp Example.configured
     = (set_unitaries [Example.pauli_x; Example.pauli_z] ;;
        set_probabilities [0.25; 0.5]%float)%cpp Example.configured.
Proof.
  assert (H : fst (set_probabilities [0.25; 0.5]%float Example.configured)
              = Return tt) by (vm_compute; reflexivity).
  split; [exact H|].
  apply (setters_idempotent_commute _ _ [Example.pauli_x; Example.pauli_z] _ H).
Defined.

(** ** Where the stated properties fail *)

(** C2 as stated fails: [nan] is accepted although it is not in [[0, 1]];
    [{0.9, 0.1}] is rejected although its entries are in [[0, 1]] and
    their sum in double arithmetic is [1]; [{2^-60, 1}] is accepted
    although the exact sum of its entries exceeds [1]; and for
    [{0.1, 0.2, 0.3}] the identity weight that is stored is not
    [1 - sum(probs)]. *)
Lemma set_probabilities_claim_fails :
  (Spec.in_unit_interval nan = false
   /\ fst (set_probabilities [nan] Example.configured) = Return tt)
  /\ (forallb Spec.in_unit_interval [0.9; 0.1]%float = true
      /\ (Spec.sum [0.9; 0.1] <=? 1)%float = true
      /\ fst (set_probabilities [0.9; 0.1]%float Example.configured)
         = Throw invalid_probability_vector)
  /\ (forallb Spec.in_unit_interval [0x1p-60; 1]%float = true
      /\ (1 < Spec.exact_sum [0x1p-60; 1]%float)%Q
      /\ fst (set_probabilities [0x1p-60; 1]%float Example.configured) = Return tt)
  /\ (fst (set_probabilities [0.1; 0.2; 0.3]%float Example.configured) = Return tt
      /\ (hd nan (DiscreteDistribution.weights
                    (probabilities_
                       (snd (set_probabilities [0.1; 0.2; 0.3]%float
                                               Example.configured))))
          =? 1 - Spec.sum [0.1; 0.2; 0.3])%float = false).
Proof.
  repeat split; vm_compute; reflexivity.
Qed.

(** C5 as stated fails: on a channel where the invariant holds, a further
    [set_unitaries] or [set_probabilities] with an argument of another
    length returns normally and leaves it broken. *)
Lemma arity_invariant_not_preserved :
  Spec.arity_invariant Example.configured
  /\ ~ Spec.arity_invariant
         (snd (set_unitaries [Example.pauli_x; Example.pauli_z] Example.configured))
  /\ fst (set_probabilities [0.25; 0.25]%float Example.configured) = Return tt
  /\ ~ Spec.arity_invariant
         (snd (set_probabilities [0.25; 0.25]%float Example.configured)).
Proof.
  repeat split; vm_compute; try reflexivity; discriminate.
Qed.

(** * Further properties of the channel *)

(** ** More double arithmetic *)








(** An entry of [[0, 1]] that is not above [0] is a zero. *)
Lemma in_unit_interval_zero (p : float) :
  Spec.in_unit_interval p = true -> (0 <? p)%float = false ->
  exists s, Prim2SF p = S754_zero s.
Proof.
  unfold Spec.in_unit_interval. intros H Hlt.
  apply andb_prop in H as [H0 _].
  rewrite leb_spec, Prim2SF_zero in H0. rewrite ltb_spec, Prim2SF_zero in Hlt.
  unfold SFleb in H0. unfold SFltb in Hlt.
  destruct (Prim2SF p) as [s|s| |s m e].
  - now exists s.
  - destruct s; cbn [SFcompare] in *; discriminate.
  - cbn [SFcompare] in H0. discriminate.
  - destruct s; cbn [SFcompare] in *; discriminate.
Qed.

(** Subtracting zeros from [1] leaves [1]. *)
Lemma running_difference_zeros (probs : rvector_t) :
  (forall p, In p probs -> exists s, Prim2SF p = S754_zero s) ->
  Spec.identity_weight probs = 1%float.
Proof.
  unfold Spec.identity_weight. induction probs as [|p probs IH]; intros Hz; simpl.
  - reflexivity.
  - destruct (Hz p (or_introl eq_refl)) as [s Hs].
    replace (1 - p)%float with 1%float.
    + apply IH. intros q Hq. apply Hz. right. exact Hq.
    + apply Prim2SF_inj. rewrite sub_spec, Hs, Prim2SF_one. reflexivity.
Qed.

(** ** What [set_probabilities] accepts and stores *)

Section Validation.

Variable cmatrix_t : Type.

Implicit Types (self : UnitaryError cmatrix_t) (probs : rvector_t).

(** On a vector without [nan], the test the function makes holds exactly
    when the entries and the identity weight are in [[0, 1]]. *)
Lemma accepted_in_unit_interval probs self :
  Spec.nan_free probs = true ->
  fst (set_probabilities probs self) = Return tt ->
  forallb Spec.in_unit_interval probs = true
  /\ Spec.in_unit_interval (Spec.identity_weight probs) = true.
Proof.
  intros Hnan. rewrite set_probabilities_run.
  assert (Hrc : forallb Spec.range_checked probs
                = forallb Spec.in_unit_interval probs).
  { unfold Spec.nan_free in Hnan.
    induction probs as [|p probs IH]; [reflexivity|]. simpl in *.
    apply andb_prop in Hnan as [Hp Hnan]. apply negb_true_iff in Hp.
    rewrite IH by exact Hnan.
    rewrite range_checked_in_unit_interval by exact Hp. reflexivity. }
  rewrite Hrc.
  destruct (forallb Spec.in_unit_interval probs) eqn:Hall.
  - assert (H1 : is_nan 1%float = false) by (vm_compute; reflexivity).
    assert (H0 : is_nan 0%float = false) by (vm_compute; reflexivity).
    pose proof (identity_weight_not_nan probs 1%float H1 Hall) as Hw.
    fold (Spec.identity_weight probs) in Hw.
    rewrite (ltb_negb_leb 1 _ H1 Hw), (ltb_negb_leb _ 0 Hw H0).
    unfold Spec.in_unit_interval.
    destruct (0 <=? Spec.identity_weight probs)%float,
             (Spec.identity_weight probs <=? 1)%float; simpl;
      intros H; try discriminate; split; reflexivity.
  - rewrite orb_true_r. simpl. discriminate.
Qed.


(** X4: one entry below [0] or above [1] (an infinity, too) is enough for
    [set_probabilities] to throw, wherever it stands and whatever the
    other entries and their sum are; the channel is left as it was. *)
Theorem set_probabilities_rejects_entry probs self (p : float) :
  In p probs ->
  (p <? 0)%float = true \/ (1 <? p)%float = true ->
  set_probabilities probs self = (Throw invalid_probability_vector, self).
Proof.
  intros Hin Hp.
  assert (Hrc : forallb Spec.range_checked probs = false).
  { destruct (forallb Spec.range_checked probs) eqn:E; [|reflexivity].
    rewrite forallb_forall in E. specialize (E p Hin).
    unfold Spec.range_checked in E. apply negb_true_iff, orb_false_elim in E.
    destruct E as [E0 E1], Hp as [Hp | Hp]; congruence. }
  rewrite set_probabilities_run, Hrc, orb_true_r. reflexivity.
Qed.

(** X5: after a [set_probabilities] that returns on a vector without
    [nan], every weight of the distribution is in [[0, 1]] and at least one
    is positive: the weights are never all zero. *)
Theorem accepted_weights_well_formed probs self :
  Spec.nan_free probs = true ->
  fst (set_probabilities probs self) = Return tt ->
  (forall w,
      In w (DiscreteDistribution.weights
              (probabilities_ (snd (set_probabilities probs self)))) ->
      Spec.in_unit_interval w = true)
  /\ exists w,
      In w (DiscreteDistribution.weights
              (probabilities_ (snd (set_probabilities probs self))))
      /\ (0 <? w)%float = true.
Proof.
  intros Hnan Hok.
  destruct (accepted_in_unit_interval probs self Hnan Hok) as [Hall Hw0].
  assert (Hst : DiscreteDistribution.weights
                  (probabilities_ (snd (set_probabilities probs self)))
                = Spec.identity_weight probs :: probs).
  { rewrite set_probabilities_run in *.
    destruct (_ || _ || _); [discriminate | reflexivity]. }
  rewrite Hst. rewrite forallb_forall in Hall. split.
  - intros w [<- | Hin]; [exact Hw0 | apply Hall, Hin].
  - destruct (existsb (fun p => (0 <? p)%float) probs) eqn:Hpos.
    + apply existsb_exists in Hpos as [p [Hin Hp]].
      exists p. split; [right; exact Hin | exact Hp].
    + exists (Spec.identity_weight probs). split; [left; reflexivity|].
      rewrite running_difference_zeros; [vm_compute; reflexivity|].
      intros p Hin. apply in_unit_interval_zero; [apply Hall, Hin|].
      destruct (0 <? p)%float eqn:Hp; [|reflexivity].
      assert (Hc : existsb (fun p => (0 <? p)%float) probs = true)
        by (apply existsb_exists; exists p; split; assumption).
      rewrite Hc in Hpos. discriminate.
Qed.

(** X6: each configuration setter replaces its member wholesale: of two
    calls of [set_unitaries] the second one counts, and so it is with two
    accepted calls of [set_probabilities]; nothing of the first argument
    is left in the channel. *)
Theorem setters_replace probs1 probs2 (mats1 mats2 : list cmatrix_t) self :
  fst (set_probabilities probs1 self) = Return tt ->
  fst (set_probabilities probs2 self) = Return tt ->
  (set_probabilities probs1 ;; set_probabilities probs2)%cpp self
    = set_probabilities probs2 self
  /\ (set_unitaries mats1 ;; set_unitaries mats2)%cpp self
     = set_unitaries mats2 self.
Proof.
  intros H1 H2.
  assert (Hrun : forall probs (c c' : UnitaryError cmatrix_t),
             fst (set_probabilities probs c') = Return tt ->
             set_probabilities probs c
             = (Return tt,
                assign_probabilities_
                  (DiscreteDistribution.Build (Spec.identity_weight probs :: probs)) c)).
  { intros probs c c'. rewrite !set_probabilities_run.
    destruct (_ || _ || _); [discriminate | reflexivity]. }
  unfold bind. rewrite (Hrun probs1 self self H1).
  rewrite !(Hrun probs2 _ self H2). split; reflexivity.
Qed.

End Validation.

(** ** How [sample_noise] ends *)

Section Sampling.

Variable cmatrix_t : Type.
Variable RngEngine : Type.
Variable rand_int : DiscreteDistribution.t -> RngEngine -> uint_t * RngEngine.

Implicit Types (w : World cmatrix_t RngEngine) (qubits : reg_t).

(** The matrix of a returned operation is among the first [r] matrices. *)
Lemma sampled_matrix_in_firstn (unitaries : list cmatrix_t) (r : uint_t) (u : cmatrix_t) :
  r <> 0 ->
  nth_error unitaries (N.to_nat (Uint64.sub r 1)) = Some u ->
  In u (firstn (N.to_nat r) unitaries).
Proof.
  intros H0 Hu.
  assert (Hs : Uint64.sub r 1 <= r - 1) by (apply uint64_sub_le; lia).
  apply (nth_error_In _ (N.to_nat (Uint64.sub r 1))).
  rewrite nth_error_firstn.
  destruct (Nat.ltb_spec (N.to_nat (Uint64.sub r 1)) (N.to_nat r)) as [_ | Hge];
    [exact Hu | lia].
Qed.

(** X1: whatever the channel and whatever index the engine draws,
    [sample_noise] ends in one of three ways: it returns no operation, it
    throws the mismatch exception, or it returns exactly one operation
    named "mat" on the given qubits whose single matrix is one of the
    configured matrices.  In particular [unitaries_[r - 1]] is never read
    outside the vector. *)
Theorem sample_noise_outcomes qubits w :
  (fst (sample_noise rand_int qubits w) = Return []
   \/ fst (sample_noise rand_int qubits w) = Throw probability_mismatch
   \/ exists u,
        In u (unitaries_ (this w))
        /\ fst (sample_noise rand_int qubits w)
           = Return [Operations.Build_Op "mat" qubits [u]])
  /\ fst (sample_noise rand_int qubits w) <> Undefined.
Proof.
  destruct (sample_noise_sampled _ _ rand_int qubits w) as [H0 | H0 Hlt | u H0 Hle Hu].
  - split; [left; reflexivity | discriminate].
  - split; [right; left; reflexivity | discriminate].
  - split; [|discriminate]. right; right. exists u. split; [|reflexivity].
    apply nth_error_In in Hu. exact Hu.
Qed.

(** X2: configured with an accepted probability vector and at least as
    many matrices, in either order, the channel never throws when sampled,
    as long as the engine draws an index below the number of outcomes: the
    call returns nothing or one operation, whose matrix is among the first
    [len(probs)] matrices; the matrices beyond are never used. *)
Theorem configured_channel_samples
    (probs : rvector_t) (mats : list cmatrix_t) (self c : UnitaryError cmatrix_t)
    (g : RngEngine) qubits :
  fst (set_probabilities probs self) = Return tt ->
  (List.length probs <= List.length mats)%nat ->
  c = snd (set_unitaries mats (snd (set_probabilities probs self)))
  \/ c = snd (set_probabilities probs (snd (set_unitaries mats self))) ->
  Spec.drawn rand_int (Build_World c g)
  < N.of_nat (DiscreteDistribution.size (probabilities_ c)) ->
  fst (sample_noise rand_int qubits (Build_World c g)) = Return []
  \/ exists u,
       In u (firstn (List.length probs) mats)
       /\ fst (sample_noise rand_int qubits (Build_World c g))
          = Return [Operations.Build_Op "mat" qubits [u]].
Proof.
  intros Hok Hlen Hc.
  assert (Hrun : forall c0 : UnitaryError cmatrix_t,
             set_probabilities probs c0
             = (Return tt,
                assign_probabilities_
                  (DiscreteDistribution.Build (Spec.identity_weight probs :: probs)) c0)).
  { intros c0. rewrite set_probabilities_run in *.
    destruct (_ || _ || _); [discriminate | reflexivity]. }
  assert (Hmem : unitaries_ c = mats
                 /\ DiscreteDistribution.size (probabilities_ c) = S (List.length probs)).
  { destruct Hc as [-> | ->]; rewrite !Hrun; split; reflexivity. }
  destruct Hmem as [Hu Hsz]. rewrite Hsz. intros Hr.
  destruct (sample_noise_sampled _ _ rand_int qubits (Build_World c g))
    as [H0 | H0 Hlt | u H0 Hle Hnth].
  - left; reflexivity.
  - cbn [this] in Hlt. rewrite Hu in Hlt. lia.
  - right. exists u. split; [|reflexivity].
    cbn [this] in Hnth. rewrite Hu in Hnth.
    pose proof (sampled_matrix_in_firstn mats _ u H0 Hnth) as Hin.
    assert (Hsub : forall k n (l : list cmatrix_t) x,
               (k <= n)%nat -> In x (firstn k l) -> In x (firstn n l)).
    { intros k n l x Hkn Hx. apply In_nth_error in Hx as [i Hi].
      apply (nth_error_In _ i).
      rewrite nth_error_firstn in *.
      destruct (Nat.ltb_spec i k) as [Hik | Hik]; [|discriminate].
      destruct (Nat.ltb_spec i n) as [_ | Hin']; [exact Hi | lia]. }
    apply (Hsub (N.to_nat (Spec.drawn rand_int (Build_World c g)))); [lia | exact Hin].
Qed.

End Sampling.

(** ** The further properties at concrete channels *)


(** [{0.5, -0.5, 1}] sums to [1] and is rejected for its second entry. *)
Lemma set_probabilities_rejects_entry_witness :
  (Spec.sum [0.5; -0.5; 1]%float =? 1)%float = true
  /\ set_probabilities [0.5; -0.5; 1]%float Example.configured
     = (Throw invalid_probability_vector, Example.configured).
Proof.
  split; [vm_compute; reflexivity|].
  apply (set_probabilities_rejects_entry _ _ _ (-0.5)%float).
  - right; left; reflexivity.
  - left. vm_compute. reflexivity.
Defined.

(** [{0, 0}] is accepted and leaves the weights [{1, 0, 0}]: the identity
    weight is the positive one. *)
Lemma accepted_weights_well_formed_witness :
  Spec.nan_free [0; 0]%float = true
  /\ fst (set_probabilities [0; 0]%float Example.configured) = Return tt
  /\ exists w,
      In w (DiscreteDistribution.weights
              (probabilities_ (snd (set_probabilities [0; 0]%float Example.configured))))
      /\ (0 <? w)%float = true.
Proof.
  assert (Hnan : Spec.nan_free [0; 0]%float = true) by (vm_compute; reflexivity).
  assert (Hok : fst (set_probabilities [0; 0]%float Example.configured) = Return tt)
    by (vm_compute; reflexivity).
  split; [exact Hnan|]. split; [exact Hok|].
  exact (proj2 (accepted_weights_well_formed _ _ Example.configured Hnan Hok)).
Defined.

(** [{0.5}] after [{0.25, 0.5}] leaves the weights of [{0.5}] alone. *)
Lemma setters_replace_witness :
  fst (set_probabilities [0.25; 0.5]%float Example.configured) = Return tt
  /\ fst (set_probabilities [0.5]%float Example.configured) = Return tt
  /\ (set_probabilities [0.25; 0.5]%float ;; set_probabilities [0.5]%float)%cpp
       Example.configured
     = (Return tt, Example.configured).
Proof.
  assert (H1 : fst (set_probabilities [0.25; 0.5]%float Example.configured) = Return tt)
    by (vm_compute; reflexivity).
  assert (H2 : fst (set_probabilities [0.5]%float Example.configured) = Return tt)
    by (vm_compute; reflexivity).
  split; [exact H1|]. split; [exact H2|].
  rewrite (proj1 (setters_replace _ _ _ [Example.pauli_x] [Example.pauli_z] _ H1 H2)).
  vm_compute. reflexivity.
Defined.

(** One probability and two matrices: a draw of [1] returns the first
    matrix. *)
Lemma configured_channel_samples_witness :
  fst (set_probabilities [0.5]%float (@init Example.cmatrix_t)) = Return tt
  /\ (fst (sample_noise Example.rand_int [7]
             (Build_World
                (snd (set_unitaries [Example.pauli_x; Example.pauli_z]
                        (snd (set_probabilities [0.5]%float init))))
                [1]))
      = Return []
      \/ exists u,
           In u (firstn 1 [Example.pauli_x; Example.pauli_z])
           /\ fst (sample_noise Example.rand_int [7]
                     (Build_World
                        (snd (set_unitaries [Example.pauli_x; Example.pauli_z]
                                (snd (set_probabilities [0.5]%float init))))
                        [1]))
              = Return [Operations.Build_Op "mat" [7] [u]]).
Proof.
  assert (Hok : fst (set_probabilities [0.5]%float (@init Example.cmatrix_t)) = Return tt)
    by (vm_compute; reflexivity).
  split; [exact Hok|].
  apply (configured_channel_samples _ _ Example.rand_int
           [0.5]%float [Example.pauli_x; Example.pauli_z] init _ [1] [7] Hok).
  - simpl. lia.
  - left. reflexivity.
  - vm_compute. reflexivity.
Defined.

(** ** A configuration with too few matrices *)

Section Mismatch.

Variable cmatrix_t : Type.
Variable RngEngine : Type.
Variable rand_int : DiscreteDistribution.t -> RngEngine -> uint_t * RngEngine.

(** X7: the setters accept more probabilities than matrices, in either
    order; the mismatch shows only when it is hit: a draw above the number
    of matrices throws the mismatch exception and leaves the channel as
    configured, while a non-zero draw within the number of matrices still
    returns its operation. *)
Theorem short_matrices_detected_lazily
    (probs : rvector_t) (mats : list cmatrix_t) (self c : UnitaryError cmatrix_t)
    (g : RngEngine) (qubits : reg_t) :
  fst (set_probabilities probs self) = Return tt ->
  c = snd (set_unitaries mats (snd (set_probabilities probs self)))
  \/ c = snd (set_probabilities probs (snd (set_unitaries mats self))) ->
  (N.of_nat (List.length mats) < Spec.drawn rand_int (Build_World c g) ->
   fst (sample_noise rand_int qubits (Build_World c g)) = Throw probability_mismatch
   /\ this (snd (sample_noise rand_int qubits (Build_World c g))) = c)
  /\ (1 <= Spec.drawn rand_int (Build_World c g) <= N.of_nat (List.length mats) ->
      exists u,
        In u mats
        /\ fst (sample_noise rand_int qubits (Build_World c g))
           = Return [Operations.Build_Op "mat" qubits [u]]).
Proof.
  intros Hok Hc.
  assert (Hrun : forall c0 : UnitaryError cmatrix_t,
             set_probabilities probs c0
             = (Return tt,
                assign_probabilities_
                  (DiscreteDistribution.Build (Spec.identity_weight probs :: probs)) c0)).
  { intros c0. rewrite set_probabilities_run in *.
    destruct (_ || _ || _); [discriminate | reflexivity]. }
  assert (Hu : unitaries_ c = mats)
    by (destruct Hc as [-> | ->]; rewrite !Hrun; reflexivity).
  rewrite sample_noise_final_state.
  destruct (sample_noise_sampled _ _ rand_int qubits (Build_World c g))
    as [H0 | H0 Hlt | u H0 Hle Hnth];
    cbn [this] in *; rewrite ?Hu in *.
  - split; intros; lia.
  - split; [intros _; split; reflexivity | intros; lia].
  - split; [intros; lia|]. intros _. exists u. split; [|reflexivity].
    apply nth_error_In in Hnth. exact Hnth.
Qed.

End Mismatch.

(** Two probabilities and one matrix: both setters return, a draw of [2]
    throws. *)
Lemma short_matrices_detected_lazily_witness :
  fst (set_probabilities [0.25; 0.5]%float (@init Example.cmatrix_t)) = Return tt
  /\ fst (sample_noise Example.rand_int [7]
            (Build_World
               (snd (set_unitaries [Example.pauli_x]
                       (snd (set_probabilities [0.25; 0.5]%float init))))
               [2]))
     = Throw probability_mismatch.
Proof.
  assert (Hok : fst (set_probabilities [0.25; 0.5]%float (@init Example.cmatrix_t))
                = Return tt) by (vm_compute; reflexivity).
  split; [exact Hok|].
  apply (short_matrices_detected_lazily _ _ Example.rand_int
           [0.25; 0.5]%float [Example.pauli_x] init _ [2] [7] Hok).
  - left. reflexivity.
  - vm_compute. reflexivity.
Defined.
